(** * EvalContext: the constant-evaluation context of slang

    A shallow embedding of [slang::ast::EvalContext] (EvalContext.h) and of
    the properties its specification states about it.

    The header gives the data members, the flag enumeration and the inline
    member functions ([inFunction], [cacheResults], [disableCaching],
    [topFrame], the disable-target and queue-target accessors); these are
    transcribed from it.  The out-of-line member functions ([reset],
    [createLocal], [findLocal], [pushFrame], [pushEmptyFrame], [popFrame],
    [step], [addDiag], ...) are only declared there; their bodies are
    modelled from the specification text and marked as such. *)

From stdpp Require Import base option list gmap.
From Stdlib Require Import ZArith Lia.

#[local] Open Scope Z_scope.

(** ** Flags *)

(** [enum class EvalFlags : uint8_t]: one bit per enumerator. *)
Module EvalFlags.
Definition IsScript : Z := Z.shiftl 1 0.
Definition CacheResults : Z := Z.shiftl 1 1.
Definition SpecparamsAllowed : Z := Z.shiftl 1 2.
Definition CovergroupExpr : Z := Z.shiftl 1 3.
Definition AllowUnboundedPlaceholder : Z := Z.shiftl 1 4.
Definition None : Z := 0.
End EvalFlags.

(** Modelled from the spec: the [bitmask<EvalFlags>] template behind
    [BITMASK(EvalFlags, AllowUnboundedPlaceholder)] is not part of the
    sources.  The spec speaks of a flag set in which a flag is tested, set
    and cleared; the model is the underlying [uint8_t] with [has] testing
    for a common bit, [|=] as bitwise or and [&= ~b] clearing the bits of
    [b] within the eight bits of the underlying type. *)
Module bitmask.
Definition t : Type := Z.
Definition has (f b : t) : bool := negb (Z.land f b =? 0).
Definition or (f b : t) : t := Z.lor f b.
Definition complement (b : t) : t := Z.lxor b 255.
Definition and (f b : t) : t := Z.land f b.
End bitmask.

(** The enumerators of [EvalFlags] that stand for a flag, in the order of
    the declaration; [None] is the absence of all of them. *)
Definition EvalFlags_enumerators : list bitmask.t :=
  [EvalFlags.IsScript; EvalFlags.CacheResults; EvalFlags.SpecparamsAllowed;
   EvalFlags.CovergroupExpr; EvalFlags.AllowUnboundedPlaceholder].

(** [SmallVector<T>], as far as the context uses it: the back of the vector
    is the last element of the list. *)
Module SmallVector.
Definition empty {A : Type} (v : list A) : bool :=
  match v with [] => true | _ :: _ => false end.
Definition back {A : Type} (v : list A) : option A := last v.
Definition push_back {A : Type} (x : A) (v : list A) : list A := v ++ [x].
Definition pop_back {A : Type} (v : list A) : list A := removelast v.
End SmallVector.

(** ** Collaborators that the header only names *)

(** Modelled from the spec: [ConstantValue] is an external, opaque,
    copyable constant with a distinguished invalid state (what a
    [ConstantValue] built from [nullptr] is) and, for unbounded literals,
    a distinguished placeholder value; every other value is a payload the
    context never inspects. *)
Inductive ConstantValue (Payload : Type) : Type :=
| CVInvalid
| CVUnboundedPlaceholder
| CVValue (p : Payload).
Arguments CVInvalid {Payload}.
Arguments CVUnboundedPlaceholder {Payload}.
Arguments CVValue {Payload} p.

(** The types and constants the header uses and does not define.  Symbols
    are handled through pointers, so a symbol type stands for the identity
    of the pointee; [inhabitant] of a location or range type is its
    value-initialised object ([{}]). *)
Class Externals : Type := {
  Symbol : Type;
  ValueSymbol : Type;
  ValueSymbol_eq_dec :: EqDecision ValueSymbol;
  ValueSymbol_countable :: Countable ValueSymbol;
  SubroutineSymbol : Type;
  SourceLocation : Type;
  SourceLocation_default :: Inhabited SourceLocation;
  LookupLocation : Type;
  LookupLocation_default :: Inhabited LookupLocation;
  SourceRange : Type;
  SourceRange_default :: Inhabited SourceRange;
  LValue : Type;
  Payload : Type;
  (** where the recursion-depth diagnostic of a refused call points; the
      spec leaves it open *)
  callDepthDiagLocation : SubroutineSymbol -> SourceLocation -> LookupLocation -> SourceLocation;
  (** the value of [$] against an active queue target *)
  unboundedOfQueue : ConstantValue Payload -> ConstantValue Payload
}.

(** Modelled from the spec: the limits come from the configuration of the
    surrounding compilation ([Compilation& compilation]), fixed for the
    lifetime of a context. *)
Record Compilation : Type := mkCompilation {
  maxConstexprDepth : Z;
  maxConstexprSteps : Z
}.

(** Modelled from the spec: the three diagnostics the context itself
    produces, next to whatever the evaluators record. *)
Inductive DiagCode : Type :=
| ConstEvalExceededMaxSteps
| ConstEvalExceededMaxCallDepth
| UnboundedNotAllowed
| OtherDiag (n : N).

Section WithExternals.
Context `{Externals}.

Inductive DiagWhere : Type :=
| AtLocation (loc : SourceLocation)
| AtRange (range : SourceRange).

Record Diagnostic : Type := mkDiagnostic {
  code : DiagCode;
  location : DiagWhere
}.

(** ** The data members *)

(** [struct Frame]: a single frame in the call stack. *)
Record Frame : Type := mkFrame {
  temporaries : gmap ValueSymbol (ConstantValue Payload);
  subroutine : option SubroutineSymbol;
  callLocation : SourceLocation;
  lookupLocation : LookupLocation
}.

(** [Frame{}]: no temporaries, [subroutine = nullptr], value-initialised
    locations. *)
Definition emptyFrame : Frame := mkFrame ∅ None inhabitant inhabitant.

(** [class EvalContext].  [steps] is a [uint32_t]; [stack] and [lvalStack]
    keep the order of the [SmallVector]s, the back of the vector being the
    last element of the list; the two pointer members that may be null are
    options.  [topLevelScope] is not a member of the
    class: it is modelled from the spec, whose [createLocal] and
    [findLocal] fall back to a synthetic top-level scope when no frame is
    active. *)
Record EvalContext : Type := mkEvalContext {
  compilation : Compilation;
  flags : bitmask.t;
  steps : Z;
  disableTarget : option Symbol;
  queueTarget : option (ConstantValue Payload);
  stack : list Frame;
  lvalStack : list LValue;
  diags : list Diagnostic;
  disableRange : SourceRange;
  topLevelScope : gmap ValueSymbol (ConstantValue Payload)
}.

(** [explicit EvalContext(Compilation&, bitmask<EvalFlags> flags = {})]
    with the default member initialisers. *)
Definition newEvalContext (comp : Compilation) (fl : bitmask.t) : EvalContext :=
  mkEvalContext comp fl 0 None None [] [] [] inhabitant ∅.

Definition with_flags (fl : bitmask.t) (c : EvalContext) : EvalContext :=
  mkEvalContext (compilation c) fl (steps c) (disableTarget c) (queueTarget c)
    (stack c) (lvalStack c) (diags c) (disableRange c) (topLevelScope c).

Definition with_steps (n : Z) (c : EvalContext) : EvalContext :=
  mkEvalContext (compilation c) (flags c) n (disableTarget c) (queueTarget c)
    (stack c) (lvalStack c) (diags c) (disableRange c) (topLevelScope c).

Definition with_stack (st : list Frame) (c : EvalContext) : EvalContext :=
  mkEvalContext (compilation c) (flags c) (steps c) (disableTarget c) (queueTarget c)
    st (lvalStack c) (diags c) (disableRange c) (topLevelScope c).

Definition with_lvalStack (lv : list LValue) (c : EvalContext) : EvalContext :=
  mkEvalContext (compilation c) (flags c) (steps c) (disableTarget c) (queueTarget c)
    (stack c) lv (diags c) (disableRange c) (topLevelScope c).

Definition with_diags (ds : list Diagnostic) (c : EvalContext) : EvalContext :=
  mkEvalContext (compilation c) (flags c) (steps c) (disableTarget c) (queueTarget c)
    (stack c) (lvalStack c) ds (disableRange c) (topLevelScope c).

Definition with_topLevelScope (m : gmap ValueSymbol (ConstantValue Payload)) (c : EvalContext) : EvalContext :=
  mkEvalContext (compilation c) (flags c) (steps c) (disableTarget c) (queueTarget c)
    (stack c) (lvalStack c) (diags c) (disableRange c) m.

(** ** Inline member functions, from the header *)

(** [bool inFunction() const { return !stack.empty(); }] *)
Definition inFunction (c : EvalContext) : bool :=
  negb (SmallVector.empty (stack c)).

(** [bool cacheResults() const
      { return !inFunction() && flags.has(EvalFlags::CacheResults); }] *)
Definition cacheResults (c : EvalContext) : bool :=
  negb (inFunction c) && bitmask.has (flags c) EvalFlags.CacheResults.

(** [const Frame& topFrame() const { return stack.back(); }]; [None] stands
    for [back()] of an empty vector, which has no defined result. *)
Definition topFrame (c : EvalContext) : option Frame :=
  SmallVector.back (stack c).

(** [const Symbol* getDisableTarget() const { return disableTarget; }] *)
Definition getDisableTarget (c : EvalContext) : option Symbol := disableTarget c.

(** [SourceRange getDisableRange() const { return disableRange; }] *)
Definition getDisableRange (c : EvalContext) : SourceRange := disableRange c.

(** [void setDisableTarget(const Symbol* symbol, SourceRange range)
      { disableTarget = symbol; disableRange = range; }] *)
Definition setDisableTarget (symbol : option Symbol) (range : SourceRange)
    (c : EvalContext) : EvalContext :=
  mkEvalContext (compilation c) (flags c) (steps c) symbol (queueTarget c)
    (stack c) (lvalStack c) (diags c) range (topLevelScope c).

(** [void setQueueTarget(const ConstantValue* cv) { queueTarget = cv; }] *)
Definition setQueueTarget (cv : option (ConstantValue Payload)) (c : EvalContext) : EvalContext :=
  mkEvalContext (compilation c) (flags c) (steps c) (disableTarget c) cv
    (stack c) (lvalStack c) (diags c) (disableRange c) (topLevelScope c).

(** [const ConstantValue* getQueueTarget() const { return queueTarget; }] *)
Definition getQueueTarget (c : EvalContext) : option (ConstantValue Payload) := queueTarget c.

(** [const Diagnostics& getDiagnostics() const { return diags; }] *)
Definition getDiagnostics (c : EvalContext) : list Diagnostic := diags c.


(** ** Out-of-line member functions *)

(** Modelled from the spec: [addDiag(code, location)] and
    [addDiag(code, range)] are declared in the header without a body.
    Section 4.7: it appends a new diagnostic to the log and does not itself
    stop evaluation. *)
Definition addDiag (dc : DiagCode) (where_ : DiagWhere) (c : EvalContext) : EvalContext :=
  with_diags (diags c ++ [mkDiagnostic dc where_]) c.

(** Modelled from the spec: [reset()] is declared in the header without a
    body.  Section 4.1: it clears the frame stack, the l-value stack, the
    step counter, the diagnostics and the signal state back to a freshly
    constructed instance. *)
Definition reset (c : EvalContext) : EvalContext :=
  newEvalContext (compilation c) (flags c).

(** Modelled from the spec: [createLocal(symbol, value = nullptr)] is
    declared in the header without a body.  Section 4.1: it allocates
    storage in the current frame, or in the synthetic top-level scope when
    no frame is active; re-declaring an identity in the same frame
    overwrites the prior storage.  The returned pointer designates the
    entry just written. *)
Definition createLocal (symbol : ValueSymbol) (value : ConstantValue Payload)
    (c : EvalContext) : EvalContext :=
  match SmallVector.back (stack c) with
  | Some f =>
      with_stack
        (SmallVector.push_back
           (mkFrame (<[symbol := value]> (temporaries f)) (subroutine f)
              (callLocation f) (lookupLocation f))
           (SmallVector.pop_back (stack c))) c
  | None => with_topLevelScope (<[symbol := value]> (topLevelScope c)) c
  end.

(** Modelled from the spec: [findLocal(symbol)] is declared in the header
    without a body.  Section 4.1: it searches the storage of the innermost
    active frame and, if no frame is active, the synthetic top-level scope;
    the result is the storage found ([Some], standing for the pointer to
    it) or the not-found signal ([None], the null pointer).  The context is
    not changed. *)
Definition findLocal (symbol : ValueSymbol) (c : EvalContext)
    : option (ConstantValue Payload) :=
  match SmallVector.back (stack c) with
  | Some f => temporaries f !! symbol
  | None => topLevelScope c !! symbol
  end.

(** Modelled from the spec: [deleteLocal(symbol)] is declared in the header
    without a body.  Section 4.1: it removes the storage for a symbol. *)
Definition deleteLocal (symbol : ValueSymbol) (c : EvalContext) : EvalContext :=
  match SmallVector.back (stack c) with
  | Some f =>
      with_stack
        (SmallVector.push_back
           (mkFrame (delete symbol (temporaries f)) (subroutine f)
              (callLocation f) (lookupLocation f))
           (SmallVector.pop_back (stack c))) c
  | None => with_topLevelScope (delete symbol (topLevelScope c)) c
  end.

(** Modelled from the spec: [pushFrame(subroutine, callLocation,
    lookupLocation)] is declared in the header without a body.  Section
    4.2: it fails, returning the failure signal and emitting a
    recursion-depth diagnostic, if the resulting stack depth would exceed
    the configured maximum call depth; on success the new frame becomes
    current. *)
Definition pushFrame (sub : SubroutineSymbol) (callLoc : SourceLocation)
    (lookupLoc : LookupLocation) (c : EvalContext) : bool * EvalContext :=
  if maxConstexprDepth (compilation c) <? Z.of_nat (length (stack c)) + 1 then
    (false,
     addDiag ConstEvalExceededMaxCallDepth
       (AtLocation (callDepthDiagLocation sub callLoc lookupLoc)) c)
  else
    (true,
     with_stack (SmallVector.push_back (mkFrame ∅ (Some sub) callLoc lookupLoc) (stack c)) c).

(** Modelled from the spec: [pushEmptyFrame()] is declared in the header
    ([void], no result) without a body.  Section 4.2: it pushes a frame with
    no subroutine identity. *)
Definition pushEmptyFrame (c : EvalContext) : EvalContext :=
  with_stack (SmallVector.push_back emptyFrame (stack c)) c.

(** Modelled from the spec: [popFrame()] is declared in the header without
    a body.  Section 4.2 and the invariants of section 3: it removes the
    current frame unconditionally; popping from an empty stack is a
    programming error that aborts, which is [None] here. *)
Definition popFrame (c : EvalContext) : option EvalContext :=
  if SmallVector.empty (stack c) then None
  else Some (with_stack (SmallVector.pop_back (stack c)) c).

(** Modelled from the spec: [pushLValue], [popLValue] and [getTopLValue]
    are declared in the header without a body.  Section 4.3 and the
    header's comments: a stack of in-flight assignment targets;
    [popLValue] requires the stack to be non-empty, [getTopLValue] returns
    the null pointer on an empty stack. *)
Definition pushLValue (lval : LValue) (c : EvalContext) : EvalContext :=
  with_lvalStack (SmallVector.push_back lval (lvalStack c)) c.

Definition popLValue (c : EvalContext) : option EvalContext :=
  if SmallVector.empty (lvalStack c) then None
  else Some (with_lvalStack (SmallVector.pop_back (lvalStack c)) c).

Definition getTopLValue (c : EvalContext) : option LValue :=
  SmallVector.back (lvalStack c).

(** [++steps] on a [uint32_t]. *)
Definition uint32_incr (n : Z) : Z := (n + 1) mod 2 ^ 32.

(** Modelled from the spec: [step(loc)] is declared in the header without a
    body.  Section 4.2: it increments the shared step counter and, if the
    counter exceeds the configured maximum, emits the step-limit diagnostic
    at [loc] and returns the failure signal. *)
Definition step (loc : SourceLocation) (c : EvalContext) : bool * EvalContext :=
  let c1 := with_steps (uint32_incr (steps c)) c in
  if maxConstexprSteps (compilation c1) <? steps c1 then
    (false, addDiag ConstEvalExceededMaxSteps (AtLocation loc) c1)
  else (true, c1).

(** ** [disableCaching], from the header *)

(** The captures of the lambda handed to [ScopeGuard]:
    [saved = flags.has(EvalFlags::CacheResults)], [pushed = !inFunction()]. *)
Record DisableCachingGuard : Type := mkGuard {
  saved : bool;
  pushed : bool
}.

(** The body of [disableCaching()]: build the guard, clear the flag, push an
    empty frame when no frame is active, return the guard. *)
Definition disableCaching (c : EvalContext) : DisableCachingGuard * EvalContext :=
  let guard :=
    mkGuard (bitmask.has (flags c) EvalFlags.CacheResults) (negb (inFunction c)) in
  let c1 :=
    with_flags (bitmask.and (flags c) (bitmask.complement EvalFlags.CacheResults)) c in
  let c2 := if negb (inFunction c1) then pushEmptyFrame c1 else c1 in
  (guard, c2).

(** The lambda itself, run by the guard's destructor on whatever the
    context is when the scope is left:
    [if (pushed) popFrame();
     if (saved) flags |= CacheResults; else flags &= ~CacheResults;] *)
Definition guardExit (g : DisableCachingGuard) (c : EvalContext) : option EvalContext :=
  c1 ← (if pushed g then popFrame c else Some c);
  Some (if saved g
        then with_flags (bitmask.or (flags c1) EvalFlags.CacheResults) c1
        else with_flags (bitmask.and (flags c1) (bitmask.complement EvalFlags.CacheResults)) c1).

(** ** Unbounded literals *)

(** Modelled from the spec: the evaluator of an unbounded [$] literal is not
    part of the sources.  Section 4.6 and the comment on
    [EvalFlags::AllowUnboundedPlaceholder]: with a queue target the literal
    resolves against it; absent a target it is an error, a diagnostic and an
    invalid value, unless the placeholder flag is set, in which case it
    evaluates to the placeholder value. *)
Definition evalUnboundedLiteral (range : SourceRange) (c : EvalContext)
    : ConstantValue Payload * EvalContext :=
  match getQueueTarget c with
  | Some target => (unboundedOfQueue target, c)
  | None =>
      if bitmask.has (flags c) EvalFlags.AllowUnboundedPlaceholder
      then (CVUnboundedPlaceholder, c)
      else (CVInvalid, addDiag UnboundedNotAllowed (AtRange range) c)
  end.

(** ** Sequences of calls *)

(** A call a statement or expression evaluator makes on the context; every
    mutating member function but [reset]. *)
Inductive Op : Type :=
| OpStep (loc : SourceLocation)
| OpPushFrame (sub : SubroutineSymbol) (callLoc : SourceLocation) (lookupLoc : LookupLocation)
| OpPushEmptyFrame
| OpPopFrame
| OpCreateLocal (symbol : ValueSymbol) (value : ConstantValue Payload)
| OpDeleteLocal (symbol : ValueSymbol)
| OpPushLValue (lval : LValue)
| OpPopLValue
| OpSetDisableTarget (symbol : option Symbol) (range : SourceRange)
| OpSetQueueTarget (cv : option (ConstantValue Payload))
| OpAddDiag (dc : DiagCode) (where_ : DiagWhere).

(** One call; results are dropped, as by a caller that carries on whatever
    the call answered.  [None] is an abort (a pop from an empty stack). *)
Definition exec (op : Op) (c : EvalContext) : option EvalContext :=
  match op with
  | OpStep loc => Some (step loc c).2
  | OpPushFrame sub callLoc lookupLoc => Some (pushFrame sub callLoc lookupLoc c).2
  | OpPushEmptyFrame => Some (pushEmptyFrame c)
  | OpPopFrame => popFrame c
  | OpCreateLocal symbol value => Some (createLocal symbol value c)
  | OpDeleteLocal symbol => Some (deleteLocal symbol c)
  | OpPushLValue lval => Some (pushLValue lval c)
  | OpPopLValue => popLValue c
  | OpSetDisableTarget symbol range => Some (setDisableTarget symbol range c)
  | OpSetQueueTarget cv => Some (setQueueTarget cv c)
  | OpAddDiag dc where_ => Some (addDiag dc where_ c)
  end.

Fixpoint run (ops : list Op) (c : EvalContext) : option EvalContext :=
  match ops with
  | [] => Some c
  | op :: ops' => c1 ← exec op c; run ops' c1
  end.

(** The number of [step] calls in a sequence. *)
Fixpoint countSteps (ops : list Op) : Z :=
  match ops with
  | [] => 0
  | OpStep _ :: ops' => 1 + countSteps ops'
  | _ :: ops' => countSteps ops'
  end.

(** [step(loc)] called [n] times in a row. *)
Definition stepN (n : N) (loc : SourceLocation) (c : EvalContext) : EvalContext :=
  N.iter n (fun c' => (step loc c').2) c.

(** Balanced use of the call stack, the way an evaluator of calls uses it:
    a frame is pushed, the body runs in it, the frame is popped, and
    evaluation goes on.  A [pushFrame] that is refused pushed nothing, so
    its body and its pop are skipped. *)
Inductive Calls : Type :=
| NoCall
| CallFrame (sub : SubroutineSymbol) (callLoc : SourceLocation)
    (lookupLoc : LookupLocation) (body rest : Calls)
| CallEmptyFrame (body rest : Calls).

Fixpoint runCalls (p : Calls) (c : EvalContext) : option EvalContext :=
  match p with
  | NoCall => Some c
  | CallFrame sub callLoc lookupLoc body rest =>
      let r := pushFrame sub callLoc lookupLoc c in
      if r.1 then
        c2 ← runCalls body r.2; c3 ← popFrame c2; runCalls rest c3
      else runCalls rest r.2
  | CallEmptyFrame body rest =>
      c2 ← runCalls body (pushEmptyFrame c); c3 ← popFrame c2; runCalls rest c3
  end.

(** ** What a frame holds by its own calls *)

(** The effect of one call on what the frame at depth [d] (the [d]-th frame
    from the bottom of the stack) holds for [symbol], when only the calls
    made while that frame is the current one are looked at: a
    [createLocal] for the symbol stores its value, a [deleteLocal] for the
    symbol removes it, and every other call, as well as every call made at
    another depth, leaves [cur] as it is. *)
Definition ownLocalStep (d : nat) (symbol : ValueSymbol)
    (cur : option (ConstantValue Payload)) (op : Op) (c : EvalContext)
    : option (ConstantValue Payload) :=
  if Nat.eqb (length (stack c)) d then
    match op with
    | OpCreateLocal s value => if decide (s = symbol) then Some value else cur
    | OpDeleteLocal s => if decide (s = symbol) then None else cur
    | _ => cur
    end
  else cur.

(** The same along a sequence of calls run from [c]. *)
Fixpoint ownLocal (d : nat) (symbol : ValueSymbol)
    (cur : option (ConstantValue Payload)) (ops : list Op) (c : EvalContext)
    : option (ConstantValue Payload) :=
  match ops with
  | [] => cur
  | op :: ops' =>
      match exec op c with
      | Some c1 => ownLocal d symbol (ownLocalStep d symbol cur op c) ops' c1
      | None => cur
      end
  end.

(** Whether some call of the sequence is a [createLocal] for [symbol] made
    while the frame at depth [d] is the current one. *)
Fixpoint createsOwn (d : nat) (symbol : ValueSymbol) (ops : list Op)
    (c : EvalContext) : bool :=
  match ops with
  | [] => false
  | op :: ops' =>
      (Nat.eqb (length (stack c)) d
       && match op with
          | OpCreateLocal s _ => bool_decide (s = symbol)
          | _ => false
          end)
      || match exec op c with
         | Some c1 => createsOwn d symbol ops' c1
         | None => false
         end
  end.

(** Whether the sequence runs without abort and never pops the frame at
    depth [d]: after every call the stack is at least [d] deep. *)
Fixpoint staysAbove (d : nat) (ops : list Op) (c : EvalContext) : bool :=
  match ops with
  | [] => true
  | op :: ops' =>
      match exec op c with
      | Some c1 => Nat.leb d (length (stack c1)) && staysAbove d ops' c1
      | None => false
      end
  end.

End WithExternals.

(** ** A concrete instance

    Symbols are addresses, locations are offsets, ranges are pairs of
    offsets; used to run the model on examples. *)
#[local] Instance sampleExternals : Externals := {|
  Symbol := positive;
  ValueSymbol := positive;
  SubroutineSymbol := positive;
  SourceLocation := N;
  SourceLocation_default := populate 0%N;
  LookupLocation := N;
  LookupLocation_default := populate 0%N;
  SourceRange := N * N;
  SourceRange_default := populate (0%N, 0%N);
  LValue := positive;
  Payload := Z;
  callDepthDiagLocation := fun _ callLoc _ => callLoc;
  unboundedOfQueue := fun q => q
|}.
#[local] Canonical Structure sampleExternals.

(** A compilation with call depth 3 and step limit 5. *)
Definition sampleCompilation : Compilation := mkCompilation 3 5.

(** A fresh context with caching enabled. *)
Definition sampleContext : EvalContext :=
  newEvalContext sampleCompilation EvalFlags.CacheResults.

(** Five statements, the second to the third of them inside a frame. *)
Definition sampleOps : list Op :=
  [OpStep 1%N; OpPushEmptyFrame; OpStep 2%N; OpStep 3%N; OpPopFrame;
   OpStep 4%N; OpStep 5%N].

(** Calls nested four deep, one frame deeper than [sampleCompilation]
    allows, followed by one more evaluation in an empty frame. *)
Definition sampleCalls : Calls :=
  CallFrame 7%positive 10%N 1%N
    (CallFrame 7%positive 11%N 2%N
       (CallEmptyFrame (CallFrame 7%positive 12%N 3%N NoCall NoCall) NoCall)
       NoCall)
    (CallEmptyFrame NoCall NoCall).

(** The same after two, and after three, nested calls of subroutine [7]. *)
Definition sampleDepth2 : EvalContext :=
  (pushFrame 7%positive 11%N 2%N
     (pushFrame 7%positive 10%N 1%N sampleContext).2).2.

Definition sampleDepth3 : EvalContext :=
  (pushFrame 7%positive 12%N 3%N sampleDepth2).2.

(** The caller's frame [F] with a local for symbol [5], and the frame [G]
    of a call made from it. *)
Definition sampleCaller : EvalContext :=
  createLocal 5%positive (CVValue 1)
    (pushFrame 7%positive 10%N 1%N sampleContext).2.

Definition sampleCallee : EvalContext :=
  (pushFrame 7%positive 11%N 2%N sampleCaller).2.

(** What [G] does: a local for another symbol, a statement, and a nested
    evaluation in a frame [H] that creates a local for symbol [5] and
    returns. *)
Definition sampleCalleeOps : list Op :=
  [OpCreateLocal 6%positive (CVValue 3); OpStep 1%N; OpPushEmptyFrame;
   OpCreateLocal 5%positive (CVValue 9); OpPopFrame].

(** A fresh context for a parameter evaluation in a script: caching,
    placeholders and script rules enabled. *)
Definition sampleScriptContext : EvalContext :=
  newEvalContext sampleCompilation
    (bitmask.or EvalFlags.IsScript
       (bitmask.or EvalFlags.CacheResults EvalFlags.AllowUnboundedPlaceholder)).

(** * Properties *)

Section Properties.
Context `{Externals}.

Implicit Types (c : EvalContext) (f : Frame).

(** ** The vector operations *)

Lemma empty_true_iff {A : Type} (v : list A) : SmallVector.empty v = true <-> v = [].
Proof. destruct v; simpl; split; congruence. Qed.

Lemma empty_push_back {A : Type} (x : A) (v : list A) :
  SmallVector.empty (SmallVector.push_back x v) = false.
Proof. destruct v; reflexivity. Qed.

Lemma back_push_back {A : Type} (x : A) (v : list A) :
  SmallVector.back (SmallVector.push_back x v) = Some x.
Proof. apply last_snoc. Qed.

Lemma pop_back_push_back {A : Type} (x : A) (v : list A) :
  SmallVector.pop_back (SmallVector.push_back x v) = v.
Proof. apply removelast_last. Qed.

Lemma length_push_back {A : Type} (x : A) (v : list A) :
  length (SmallVector.push_back x v) = S (length v).
Proof. unfold SmallVector.push_back. rewrite length_app. simpl. lia. Qed.

Lemma length_pop_back {A : Type} (v : list A) :
  v <> [] -> S (length (SmallVector.pop_back v)) = length v.
Proof.
  intros Hv. destruct (exists_last Hv) as (v' & x & ->).
  unfold SmallVector.pop_back. rewrite removelast_last, length_app. simpl. lia.
Qed.

(** ** Caching *)

Lemma inFunction_true_iff c : inFunction c = true <-> stack c <> [].
Proof.
  unfold inFunction. destruct (stack c); simpl; split; congruence.
Qed.

Lemma inFunction_false_iff c : inFunction c = false <-> stack c = [].
Proof.
  unfold inFunction. destruct (stack c); simpl; split; congruence.
Qed.

(** C3. [cacheResults()] is false whenever a frame is on the call stack,
    whatever the flags are, and it is true exactly when the frame stack is
    empty and the [CacheResults] flag is set. *)
Theorem cacheResults_iff c :
  (stack c <> [] -> cacheResults c = false) /\
  (cacheResults c = true <->
   stack c = [] /\ bitmask.has (flags c) EvalFlags.CacheResults = true).
Proof.
  unfold cacheResults. split.
  - intros Hne. apply inFunction_true_iff in Hne. rewrite Hne. reflexivity.
  - rewrite andb_true_iff, negb_true_iff, inFunction_false_iff. reflexivity.
Qed.

(** ** The disable target *)

(** C8. After [setDisableTarget(B, R)] the two getters return exactly [B]
    and [R]; after clearing with [setDisableTarget(nullptr, {})] they return
    no target and the empty range. *)
Theorem setDisableTarget_get (B : Symbol) (R : SourceRange) c :
  let c1 := setDisableTarget (Some B) R c in
  let c2 := setDisableTarget None inhabitant c1 in
  getDisableTarget c1 = Some B /\ getDisableRange c1 = R /\
  getDisableTarget c2 = None /\ getDisableRange c2 = inhabitant.
Proof. repeat split. Qed.

(** C10. [setDisableTarget] overwrites the target slot and the range slot
    with its two arguments and leaves every other member as it was; with a
    null target and a non-empty range, that range is what
    [getDisableRange] returns. *)
Theorem setDisableTarget_frame (symbol : option Symbol) (range : SourceRange) c :
  let c' := setDisableTarget symbol range c in
  (disableTarget c' = symbol /\ disableRange c' = range) /\
  (compilation c' = compilation c /\ flags c' = flags c /\ steps c' = steps c /\
   queueTarget c' = queueTarget c /\ stack c' = stack c /\
   lvalStack c' = lvalStack c /\ diags c' = diags c /\
   topLevelScope c' = topLevelScope c) /\
  getDisableTarget (setDisableTarget None range c) = None /\
  getDisableRange (setDisableTarget None range c) = range.
Proof. repeat split. Qed.

(** ** Frames *)

(** C9. [pushEmptyFrame] has no failure signal and no depth check: at any
    stack depth it appends one frame and records no diagnostic; afterwards
    [inFunction()] is true and [topFrame()] is a frame without a
    subroutine. *)
Theorem pushEmptyFrame_always c :
  let c' := pushEmptyFrame c in
  stack c' = stack c ++ [emptyFrame] /\
  Z.of_nat (length (stack c')) = Z.of_nat (length (stack c)) + 1 /\
  diags c' = diags c /\
  inFunction c' = true /\
  topFrame c' = Some emptyFrame /\
  subroutine <$> topFrame c' = Some None.
Proof.
  cbn zeta. unfold topFrame, inFunction, pushEmptyFrame. cbn [stack diags with_stack].
  rewrite empty_push_back, back_push_back, length_push_back.
  repeat split. lia.
Qed.

Lemma pushFrame_true_top (sub : SubroutineSymbol) (callLoc : SourceLocation)
    (lookupLoc : LookupLocation) c c' :
  pushFrame sub callLoc lookupLoc c = (true, c') ->
  stack c' = stack c ++ [mkFrame ∅ (Some sub) callLoc lookupLoc] /\
  topFrame c' = Some (mkFrame ∅ (Some sub) callLoc lookupLoc).
Proof.
  unfold pushFrame. destruct (_ <? _); intros [= <-].
  unfold topFrame. cbn [stack with_stack]. rewrite back_push_back.
  split; reflexivity.
Qed.

(** C2. When the frame stack already holds the configured maximum number of
    frames, [pushFrame] returns the failure signal, adds exactly one
    diagnostic, the recursion-depth one, and leaves the stack as it was:
    the depth is still the maximum and [topFrame()] is the frame it was
    before, which is the frame of the last successful push if the stack was
    filled by one. *)
Theorem pushFrame_at_max_depth (sub : SubroutineSymbol) (callLoc : SourceLocation)
    (lookupLoc : LookupLocation) c :
  Z.of_nat (length (stack c)) = maxConstexprDepth (compilation c) ->
  let r := pushFrame sub callLoc lookupLoc c in
  r.1 = false /\
  diags r.2 =
    diags c ++ [mkDiagnostic ConstEvalExceededMaxCallDepth
                  (AtLocation (callDepthDiagLocation sub callLoc lookupLoc))] /\
  stack r.2 = stack c /\
  Z.of_nat (length (stack r.2)) = maxConstexprDepth (compilation r.2) /\
  topFrame r.2 = topFrame c /\
  (forall sub0 callLoc0 lookupLoc0 (c0 : EvalContext),
     pushFrame sub0 callLoc0 lookupLoc0 c0 = (true, c) ->
     topFrame r.2 = Some (mkFrame ∅ (Some sub0) callLoc0 lookupLoc0)).
Proof.
  intros Hmax. cbn zeta.
  assert (Hrefused : pushFrame sub callLoc lookupLoc c =
            (false, addDiag ConstEvalExceededMaxCallDepth
                      (AtLocation (callDepthDiagLocation sub callLoc lookupLoc)) c)).
  { unfold pushFrame.
    destruct (Z.ltb_spec (maxConstexprDepth (compilation c))
                (Z.of_nat (length (stack c)) + 1)) as [_ | Hge]; [reflexivity | lia]. }
  rewrite Hrefused. cbn [fst snd]. repeat split; [exact Hmax |].
  intros sub0 callLoc0 lookupLoc0 c0 Hpush.
  apply pushFrame_true_top in Hpush as [_ Htop]. exact Htop.
Qed.

(** ** Unbounded literals *)

(** C6. With no queue target, evaluating [$] yields the invalid value and
    records a diagnostic, unless [AllowUnboundedPlaceholder] is set: then
    it yields the placeholder value and records nothing. *)
Theorem evalUnboundedLiteral_no_target (range : SourceRange) c :
  getQueueTarget c = None ->
  let r := evalUnboundedLiteral range c in
  (bitmask.has (flags c) EvalFlags.AllowUnboundedPlaceholder = false ->
   r.1 = CVInvalid /\
   diags r.2 = diags c ++ [mkDiagnostic UnboundedNotAllowed (AtRange range)]) /\
  (bitmask.has (flags c) EvalFlags.AllowUnboundedPlaceholder = true ->
   r.1 = CVUnboundedPlaceholder /\ r.2 = c).
Proof.
  intros Hq. cbn zeta. unfold evalUnboundedLiteral. rewrite Hq.
  split; intros ->; split; reflexivity.
Qed.

(** ** The step counter *)

Lemma uint32_incr_range (n : Z) : 0 <= uint32_incr n < 2 ^ 32.
Proof. unfold uint32_incr. apply Z.mod_pos_bound. lia. Qed.

Lemma step_fields (loc : SourceLocation) c :
  steps (step loc c).2 = uint32_incr (steps c) /\
  compilation (step loc c).2 = compilation c /\
  stack (step loc c).2 = stack c.
Proof.
  unfold step. cbn zeta.
  destruct (_ <? _); repeat split.
Qed.

Lemma step_result (loc : SourceLocation) c :
  let r := step loc c in
  if maxConstexprSteps (compilation c) <? uint32_incr (steps c)
  then r.1 = false /\
       diags r.2 = diags c ++ [mkDiagnostic ConstEvalExceededMaxSteps (AtLocation loc)]
  else r.1 = true /\ diags r.2 = diags c.
Proof.
  cbn zeta. unfold step. cbn [compilation steps with_steps].
  destruct (_ <? _); split; reflexivity.
Qed.

Lemma exec_fields (op : Op) c c' :
  exec op c = Some c' ->
  compilation c' = compilation c /\
  steps c' = match op with OpStep _ => uint32_incr (steps c) | _ => steps c end.
Proof.
  destruct op; cbn [exec]; intros Hex; simplify_eq.
  - destruct (step_fields loc c) as (? & ? & _). auto.
  - unfold pushFrame. destruct (_ <? _); split; reflexivity.
  - split; reflexivity.
  - unfold popFrame in Hex. destruct (SmallVector.empty _); simplify_eq.
    split; reflexivity.
  - unfold createLocal. destruct (SmallVector.back _); split; reflexivity.
  - unfold deleteLocal. destruct (SmallVector.back _); split; reflexivity.
  - split; reflexivity.
  - unfold popLValue in Hex. destruct (SmallVector.empty _); simplify_eq.
    split; reflexivity.
  - split; reflexivity.
  - split; reflexivity.
  - split; reflexivity.
Qed.

Lemma countSteps_nonneg (ops : list Op) : 0 <= countSteps ops.
Proof. induction ops as [| [] ops IH]; cbn [countSteps]; lia. Qed.

(** Whatever else is called in between, the counter moves by the number of
    [step] calls, modulo [2 ^ 32]. *)
Lemma run_fields (ops : list Op) c c' :
  0 <= steps c < 2 ^ 32 ->
  run ops c = Some c' ->
  compilation c' = compilation c /\
  steps c' = (steps c + countSteps ops) mod 2 ^ 32.
Proof.
  revert c. induction ops as [| op ops IH]; intros c Hr; cbn [run].
  - intros [= <-]. cbn [countSteps]. rewrite Z.add_0_r, Z.mod_small by lia.
    split; reflexivity.
  - destruct (exec op c) as [c1 |] eqn:Hex; cbn; [| discriminate].
    intros Hrun. destruct (exec_fields _ _ _ Hex) as [Hc1 Hs1].
    assert (Hr1 : 0 <= steps c1 < 2 ^ 32).
    { rewrite Hs1. destruct op; try exact Hr. apply uint32_incr_range. }
    destruct (IH _ Hr1 Hrun) as [Hc Hs].
    split; [congruence |]. rewrite Hs, Hs1.
    destruct op; cbn [countSteps]; try reflexivity.
    unfold uint32_incr. rewrite Zplus_mod_idemp_l. f_equal. lia.
Qed.

Lemma stepN_fields (n : N) (loc : SourceLocation) c :
  0 <= steps c < 2 ^ 32 ->
  compilation (stepN n loc c) = compilation c /\
  steps (stepN n loc c) = (steps c + Z.of_N n) mod 2 ^ 32.
Proof.
  intros Hr. unfold stepN. induction n as [| n IH] using N.peano_ind.
  - cbn. rewrite Z.add_0_r, Z.mod_small by lia. split; reflexivity.
  - rewrite N.iter_succ. destruct IH as [IHc IHs].
    destruct (step_fields loc (N.iter n (fun c' => (step loc c').2) c)) as (Hs & Hc & _).
    split; [congruence |].
    rewrite Hs, IHs. unfold uint32_incr. rewrite Zplus_mod_idemp_l. f_equal. lia.
Qed.

(** C1, as amended.  Start from a counter of zero (a fresh or reset
    context) and make any calls other than [reset], of which fewer than
    [2 ^ 32] are [step] calls.  Then the counter, one member of the context
    that pushes and pops of frames do not touch, equals the number of
    [step] calls made; and the next [step] call, if it still fits the
    32-bit counter, fails exactly when its number exceeds the limit, in
    which case it appends the step-limit diagnostic at its location.
    [reset] puts the counter back to zero. *)
Theorem step_counter_shared (ops : list Op) c c' :
  steps c = 0 ->
  run ops c = Some c' ->
  countSteps ops < 2 ^ 32 ->
  steps c' = countSteps ops /\
  (forall loc : SourceLocation,
     countSteps ops + 1 < 2 ^ 32 ->
     let r := step loc c' in
     steps r.2 = countSteps ops + 1 /\
     if maxConstexprSteps (compilation c) <? countSteps ops + 1
     then r.1 = false /\
          diags r.2 =
            diags c' ++ [mkDiagnostic ConstEvalExceededMaxSteps (AtLocation loc)]
     else r.1 = true /\ diags r.2 = diags c') /\
  steps (reset c') = 0 /\ compilation (reset c') = compilation c.
Proof.
  intros H0 Hrun Hlt.
  pose proof (countSteps_nonneg ops) as Hnn.
  destruct (run_fields ops c c') as [Hc Hs]; [lia | exact Hrun |].
  rewrite H0, Z.add_0_l, Z.mod_small in Hs by lia.
  split; [exact Hs |]. split; [| split; [reflexivity | exact Hc]].
  intros loc Hfit. cbn zeta.
  destruct (step_fields loc c') as (Hs' & _ & _).
  pose proof (step_result loc c') as Hres. cbn zeta in Hres.
  assert (Hincr : uint32_incr (steps c') = countSteps ops + 1).
  { unfold uint32_incr. rewrite Hs. apply Z.mod_small. lia. }
  rewrite Hincr, Hc in Hres. rewrite Hs', Hincr.
  split; [reflexivity | exact Hres].
Qed.

(** ** Scoped suppression of caching *)

Lemma has_after_clear (fl : bitmask.t) :
  bitmask.has (bitmask.and fl (bitmask.complement EvalFlags.CacheResults))
    EvalFlags.CacheResults = false.
Proof.
  unfold bitmask.has, bitmask.and, bitmask.complement.
  rewrite <- Z.land_assoc.
  change (Z.land (Z.lxor EvalFlags.CacheResults 255) EvalFlags.CacheResults) with 0.
  rewrite Z.land_0_r. reflexivity.
Qed.

Lemma has_after_set (fl : bitmask.t) :
  bitmask.has (bitmask.or fl EvalFlags.CacheResults) EvalFlags.CacheResults = true.
Proof.
  unfold bitmask.has, bitmask.or.
  rewrite Z.land_lor_distr_l.
  change (Z.land EvalFlags.CacheResults EvalFlags.CacheResults) with 2.
  apply negb_true_iff, Z.eqb_neq. intros Hz.
  apply Z.lor_eq_0_iff in Hz. lia.
Qed.

Lemma popFrame_some c :
  stack c <> [] ->
  popFrame c = Some (with_stack (SmallVector.pop_back (stack c)) c).
Proof.
  intros Hne. unfold popFrame. destruct (stack c); [congruence | reflexivity].
Qed.

Lemma length_zero_iff_stack c c' :
  length (stack c) = length (stack c') -> (stack c = [] <-> stack c' = []).
Proof. destruct (stack c), (stack c'); cbn; intros; split; congruence. Qed.

(** A scope left at the call depth it was entered with: the guard runs and
    puts the flag, [inFunction()] and the depth back. *)
Lemma disableCaching_balanced_exit c cend :
  let g := (disableCaching c).1 in
  let c1 := (disableCaching c).2 in
  length (stack cend) = length (stack c1) ->
  cacheResults c1 = false /\
  exists c',
    guardExit g cend = Some c' /\
    bitmask.has (flags c') EvalFlags.CacheResults
      = bitmask.has (flags c) EvalFlags.CacheResults /\
    inFunction c' = inFunction c /\
    length (stack c') = length (stack c) /\
    (stack c = [] -> stack c' = []).
Proof.
  cbn zeta. unfold disableCaching. cbn [fst snd saved pushed].
  set (cleared := with_flags _ c).
  assert (Hin : inFunction cleared = inFunction c) by reflexivity.
  rewrite Hin. intros Hlen. split.
  - unfold cacheResults.
    destruct (inFunction c) eqn:Hc; cbn [negb].
    + rewrite Hin. reflexivity.
    + unfold pushEmptyFrame, inFunction at 1. cbn [stack with_stack].
      rewrite empty_push_back. reflexivity.
  - unfold guardExit. cbn [saved pushed].
    assert (Hflag : forall cx : EvalContext,
      bitmask.has
        (flags (if bitmask.has (flags c) EvalFlags.CacheResults
                then with_flags (bitmask.or (flags cx) EvalFlags.CacheResults) cx
                else with_flags
                       (bitmask.and (flags cx) (bitmask.complement EvalFlags.CacheResults)) cx))
        EvalFlags.CacheResults
      = bitmask.has (flags c) EvalFlags.CacheResults).
    { intros cx. destruct (bitmask.has (flags c) _) eqn:Hs; cbn [flags with_flags].
      - apply has_after_set.
      - apply has_after_clear. }
    assert (Hstack : forall cx : EvalContext,
      stack (if bitmask.has (flags c) EvalFlags.CacheResults
             then with_flags (bitmask.or (flags cx) EvalFlags.CacheResults) cx
             else with_flags
                    (bitmask.and (flags cx) (bitmask.complement EvalFlags.CacheResults)) cx)
      = stack cx).
    { intros cx. destruct (bitmask.has (flags c) _); reflexivity. }
    destruct (inFunction c) eqn:Hc; cbn [negb] in *.
    + (* a frame was active: nothing was pushed, nothing is popped *)
      cbn [mbind option_bind]. eexists. split; [reflexivity |].
      split; [apply Hflag |].
      assert (Hl : length (stack cend) = length (stack c)) by exact Hlen.
      apply inFunction_true_iff in Hc.
      unfold inFunction. rewrite Hstack.
      split; [| split; [exact Hl | congruence]].
      destruct (stack cend), (stack c); cbn in *; congruence.
    + (* no frame was active: the empty frame pushed on entry is popped *)
      apply inFunction_false_iff in Hc.
      assert (Hl : length (stack cend) = 1%nat).
      { rewrite Hlen. unfold pushEmptyFrame. cbn [stack with_stack].
        rewrite length_push_back. change (stack cleared) with (stack c).
        rewrite Hc. reflexivity. }
      destruct (stack cend) as [| f [| f' st]] eqn:Hend; cbn in Hl; try lia.
      rewrite popFrame_some by congruence. cbn [mbind option_bind].
      eexists. split; [reflexivity |].
      split; [apply Hflag |].
      unfold inFunction. rewrite Hstack. cbn [stack with_stack].
      rewrite Hend, Hc. cbn. repeat split.
Qed.

Lemma disableCaching_inFunction c : inFunction (disableCaching c).2 = true.
Proof.
  unfold disableCaching. cbn [snd].
  change (inFunction (with_flags _ c)) with (inFunction c).
  destruct (inFunction c) eqn:Hin; cbn [negb]; [exact Hin |].
  unfold inFunction, pushEmptyFrame. cbn [stack with_stack].
  rewrite empty_push_back. reflexivity.
Qed.

Lemma guardExit_flag c cx cx' :
  guardExit (disableCaching c).1 cx = Some cx' ->
  bitmask.has (flags cx') EvalFlags.CacheResults
    = bitmask.has (flags c) EvalFlags.CacheResults.
Proof.
  unfold guardExit, disableCaching. cbn [fst saved pushed].
  destruct (if negb (inFunction c) then popFrame cx else Some cx) as [cy |];
    cbn [mbind option_bind]; [| discriminate].
  intros [= <-].
  destruct (bitmask.has (flags c) EvalFlags.CacheResults); cbn [flags with_flags];
    [apply has_after_set | apply has_after_clear].
Qed.

(** C4, as amended.  Whenever the guard of a [disableCaching()] scope runs
    to completion, whatever the path and the state the scope is left on,
    the [CacheResults] flag is what it was before the scope began.  If the
    scope is left at the call depth it was entered with (pushes and pops
    inside it are balanced), the guard does run to completion, and
    afterwards [inFunction()] is what it was before the scope began, the
    depth of the stack too, so that no frame remains if none was active at
    entry.  Inside the scope [cacheResults()] is false: on entry and in
    every state in which the stack is at least as deep as on entry. *)
Theorem disableCaching_scope c cmid cend :
  let g := (disableCaching c).1 in
  let c1 := (disableCaching c).2 in
  length (stack cend) = length (stack c1) ->
  cacheResults c1 = false /\
  ((length (stack c1) <= length (stack cmid))%nat -> cacheResults cmid = false) /\
  (forall cx cx' : EvalContext,
     guardExit g cx = Some cx' ->
     bitmask.has (flags cx') EvalFlags.CacheResults
       = bitmask.has (flags c) EvalFlags.CacheResults) /\
  exists c',
    guardExit g cend = Some c' /\
    bitmask.has (flags c') EvalFlags.CacheResults
      = bitmask.has (flags c) EvalFlags.CacheResults /\
    inFunction c' = inFunction c /\
    length (stack c') = length (stack c) /\
    (stack c = [] -> stack c' = []).
Proof.
  cbn zeta. intros Hlen.
  destruct (disableCaching_balanced_exit c cend Hlen) as [Hentry Hexit].
  split; [exact Hentry |]. split; [| split; [| exact Hexit]].
  - intros Hdeep.
    pose proof (disableCaching_inFunction c) as Hin.
    apply inFunction_true_iff in Hin.
    assert (Hmid : stack cmid <> []).
    { destruct (stack cmid); [| discriminate].
      destruct (stack (disableCaching c).2); [congruence | cbn in Hdeep; lia]. }
    apply inFunction_true_iff in Hmid.
    unfold cacheResults. rewrite Hmid. reflexivity.
  - intros cx cx'. apply guardExit_flag.
Qed.

(** ** Balanced pushes and pops *)

Lemma runCalls_stack (p : Calls) c :
  exists c', runCalls p c = Some c' /\ stack c' = stack c.
Proof.
  revert c. induction p as [| sub callLoc lookupLoc body IHbody rest IHrest
                            | body IHbody rest IHrest]; intros c; cbn [runCalls].
  - eauto.
  - unfold pushFrame. destruct (_ <? _); cbn [fst snd].
    + destruct (IHrest (addDiag ConstEvalExceededMaxCallDepth
                  (AtLocation (callDepthDiagLocation sub callLoc lookupLoc)) c))
        as (c' & -> & Hst).
      eauto.
    + destruct (IHbody (with_stack
                  (SmallVector.push_back (mkFrame ∅ (Some sub) callLoc lookupLoc) (stack c)) c))
        as (c2 & -> & Hst2).
      cbn [mbind option_bind]. cbn [stack with_stack] in Hst2.
      rewrite popFrame_some by (rewrite Hst2; unfold SmallVector.push_back;
                                intros Hnil; apply app_eq_nil in Hnil as [_ ?]; discriminate).
      cbn [mbind option_bind].
      destruct (IHrest (with_stack (SmallVector.pop_back (stack c2)) c2)) as (c' & -> & Hst).
      exists c'. split; [reflexivity |].
      rewrite Hst. cbn [stack with_stack]. rewrite Hst2. apply pop_back_push_back.
  - destruct (IHbody (pushEmptyFrame c)) as (c2 & -> & Hst2).
    cbn [mbind option_bind]. unfold pushEmptyFrame in Hst2. cbn [stack with_stack] in Hst2.
    rewrite popFrame_some by (rewrite Hst2; unfold SmallVector.push_back;
                              intros Hnil; apply app_eq_nil in Hnil as [_ ?]; discriminate).
    cbn [mbind option_bind].
    destruct (IHrest (with_stack (SmallVector.pop_back (stack c2)) c2)) as (c' & -> & Hst).
    exists c'. split; [reflexivity |].
    rewrite Hst. cbn [stack with_stack]. rewrite Hst2. apply pop_back_push_back.
Qed.

(** C5.  [inFunction()] is true if and only if the frame stack is
    non-empty; and a balanced run of [pushFrame] / [pushEmptyFrame] and
    [popFrame] calls that starts on an empty stack runs to its end with
    [inFunction()] false before the first push and false after the last
    pop. *)
Theorem inFunction_balanced (p : Calls) c :
  (inFunction c = true <-> stack c <> []) /\
  (stack c = [] ->
   inFunction c = false /\
   exists c', runCalls p c = Some c' /\ inFunction c' = false /\ stack c' = []).
Proof.
  split; [apply inFunction_true_iff |].
  intros Hempty. split; [apply inFunction_false_iff, Hempty |].
  destruct (runCalls_stack p c) as (c' & Hrun & Hst).
  exists c'. rewrite Hempty in Hst.
  split; [exact Hrun |]. split; [apply inFunction_false_iff, Hst | exact Hst].
Qed.

(** ** Locals *)

Lemma findLocal_top (symbol : ValueSymbol) c (st : list Frame) f :
  stack c = st ++ [f] -> findLocal symbol c = temporaries f !! symbol.
Proof.
  intros Hst. unfold findLocal, SmallVector.back. rewrite Hst, last_snoc. reflexivity.
Qed.

Lemma snoc_cases {A : Type} (l : list A) :
  l = [] \/ exists (l' : list A) (x : A), l = l' ++ [x].
Proof. induction l as [| x l' _] using rev_ind; [left | right]; eauto. Qed.

(** The frame stack after one call, case by case. *)
Lemma exec_stack (op : Op) c c1 :
  exec op c = Some c1 ->
  match op with
  | OpPushFrame sub callLoc lookupLoc =>
      stack c1 = stack c \/ stack c1 = stack c ++ [mkFrame ∅ (Some sub) callLoc lookupLoc]
  | OpPushEmptyFrame => stack c1 = stack c ++ [emptyFrame]
  | OpPopFrame => exists f, stack c = stack c1 ++ [f]
  | OpCreateLocal s value =>
      (stack c = [] /\ stack c1 = []) \/
      exists st f,
        stack c = st ++ [f] /\
        stack c1 = st ++ [mkFrame (<[s := value]> (temporaries f)) (subroutine f)
                            (callLocation f) (lookupLocation f)]
  | OpDeleteLocal s =>
      (stack c = [] /\ stack c1 = []) \/
      exists st f,
        stack c = st ++ [f] /\
        stack c1 = st ++ [mkFrame (delete s (temporaries f)) (subroutine f)
                            (callLocation f) (lookupLocation f)]
  | _ => stack c1 = stack c
  end.
Proof.
  destruct op; cbn [exec]; intros Hex; simplify_eq.
  - apply step_fields.
  - unfold pushFrame. destruct (_ <? _); [left | right]; reflexivity.
  - reflexivity.
  - destruct (snoc_cases (stack c)) as [Hst | (st & f & Hst)].
    + unfold popFrame in Hex. rewrite Hst in Hex. discriminate.
    + rewrite popFrame_some in Hex by (rewrite Hst; destruct st; discriminate).
      simplify_eq. cbn [stack with_stack]. rewrite Hst.
      unfold SmallVector.pop_back. rewrite removelast_last. eauto.
  - unfold createLocal, SmallVector.back.
    destruct (snoc_cases (stack c)) as [Hst | (st & f & Hst)].
    + left. rewrite Hst. cbn. rewrite Hst. split; reflexivity.
    + right. rewrite Hst, last_snoc. cbn [stack with_stack].
      unfold SmallVector.pop_back, SmallVector.push_back.
      rewrite removelast_last. eauto.
  - unfold deleteLocal, SmallVector.back.
    destruct (snoc_cases (stack c)) as [Hst | (st & f & Hst)].
    + left. rewrite Hst. cbn. rewrite Hst. split; reflexivity.
    + right. rewrite Hst, last_snoc. cbn [stack with_stack].
      unfold SmallVector.pop_back, SmallVector.push_back.
      rewrite removelast_last. eauto.
  - reflexivity.
  - unfold popLValue in Hex. destruct (SmallVector.empty _); simplify_eq. reflexivity.
  - reflexivity.
  - reflexivity.
  - reflexivity.
Qed.

(** The frame at depth [d] holds [cur] for [symbol]. *)
Lemma ownLocalStep_sound (d : nat) (symbol : ValueSymbol)
    (cur : option (ConstantValue Payload)) (op : Op) c c1 :
  (1 <= d)%nat ->
  (exists g, stack c !! pred d = Some g /\ temporaries g !! symbol = cur) ->
  exec op c = Some c1 ->
  (d <= length (stack c1))%nat ->
  exists g1, stack c1 !! pred d = Some g1 /\
             temporaries g1 !! symbol = ownLocalStep d symbol cur op c.
Proof.
  intros Hd (g & Hg & Hcur) Hex Hle.
  pose proof (lookup_lt_Some _ _ _ Hg) as Hlt.
  apply exec_stack in Hex. unfold ownLocalStep.
  destruct op.
  - rewrite Hex. exists g. destruct (Nat.eqb _ _); auto.
  - exists g. split; [| destruct (Nat.eqb _ _); exact Hcur].
    destruct Hex as [-> | ->]; [exact Hg |]. rewrite lookup_app_l by exact Hlt. exact Hg.
  - exists g. split; [| destruct (Nat.eqb _ _); exact Hcur].
    rewrite Hex, lookup_app_l by exact Hlt. exact Hg.
  - exists g. split; [| destruct (Nat.eqb _ _); exact Hcur].
    destruct Hex as [f Hst]. rewrite Hst, lookup_app_l in Hg by lia. exact Hg.
  - destruct Hex as [[Hnil _] | (st & f & Hst & Hst1)].
    { rewrite Hnil in Hg. discriminate. }
    rewrite Hst, length_app in *. cbn [length] in *.
    destruct (Nat.eqb_spec (length st + 1) d) as [Heq | Hneq].
    + assert (Hidx : pred d = length st) by lia.
      rewrite Hidx in *. rewrite list_lookup_middle in Hg by reflexivity.
      simplify_eq. eexists. rewrite Hst1.
      split; [apply list_lookup_middle; reflexivity |]. cbn [temporaries].
      destruct (decide (symbol0 = symbol)) as [-> | Hne].
      * apply lookup_insert_eq.
      * rewrite lookup_insert_ne by exact Hne. reflexivity.
    + exists g. split; [| exact Hcur].
      rewrite Hst1, lookup_app_l by lia. rewrite lookup_app_l in Hg by lia. exact Hg.
  - destruct Hex as [[Hnil _] | (st & f & Hst & Hst1)].
    { rewrite Hnil in Hg. discriminate. }
    rewrite Hst, length_app in *. cbn [length] in *.
    destruct (Nat.eqb_spec (length st + 1) d) as [Heq | Hneq].
    + assert (Hidx : pred d = length st) by lia.
      rewrite Hidx in *. rewrite list_lookup_middle in Hg by reflexivity.
      simplify_eq. eexists. rewrite Hst1.
      split; [apply list_lookup_middle; reflexivity |]. cbn [temporaries].
      destruct (decide (symbol0 = symbol)) as [-> | Hne].
      * apply lookup_delete_eq.
      * rewrite lookup_delete_ne by exact Hne. reflexivity.
    + exists g. split; [| exact Hcur].
      rewrite Hst1, lookup_app_l by lia. rewrite lookup_app_l in Hg by lia. exact Hg.
  - rewrite Hex. exists g. destruct (Nat.eqb _ _); auto.
  - rewrite Hex. exists g. destruct (Nat.eqb _ _); auto.
  - rewrite Hex. exists g. destruct (Nat.eqb _ _); auto.
  - rewrite Hex. exists g. destruct (Nat.eqb _ _); auto.
  - rewrite Hex. exists g. destruct (Nat.eqb _ _); auto.
Qed.

Lemma ownLocal_sound (d : nat) (symbol : ValueSymbol) (ops : list Op) :
  (1 <= d)%nat ->
  forall (cur : option (ConstantValue Payload)) c c3,
    (exists g, stack c !! pred d = Some g /\ temporaries g !! symbol = cur) ->
    run ops c = Some c3 ->
    staysAbove d ops c = true ->
    exists g3, stack c3 !! pred d = Some g3 /\
               temporaries g3 !! symbol = ownLocal d symbol cur ops c.
Proof.
  intros Hd. induction ops as [| op ops IH]; intros cur c c3 Hinv Hrun Hstay.
  - cbn in Hrun. simplify_eq. exact Hinv.
  - cbn [run] in Hrun. cbn [staysAbove] in Hstay. cbn [ownLocal].
    destruct (exec op c) as [c1 |] eqn:Hex; [| discriminate].
    cbn [mbind option_bind] in Hrun.
    apply andb_true_iff in Hstay as [Hle Hstay]. apply Nat.leb_le in Hle.
    apply (IH _ c1 c3); [| exact Hrun | exact Hstay].
    eapply ownLocalStep_sound; eassumption.
Qed.

Lemma ownLocal_no_create (d : nat) (symbol : ValueSymbol) (ops : list Op) c :
  createsOwn d symbol ops c = false -> ownLocal d symbol None ops c = None.
Proof.
  revert c. induction ops as [| op ops IH]; intros c; cbn [createsOwn ownLocal];
    [reflexivity |].
  intros Hno. apply orb_false_iff in Hno as [Hhere Hrest].
  destruct (exec op c) as [c1 |]; [| reflexivity].
  assert (Hstep : ownLocalStep d symbol None op c = None).
  { unfold ownLocalStep. destruct (Nat.eqb _ _); [| reflexivity].
    cbn [andb] in Hhere. destruct op; try reflexivity.
    - apply bool_decide_eq_false in Hhere. destruct (decide _); [contradiction | reflexivity].
    - destruct (decide _); reflexivity. }
  rewrite Hstep. apply IH, Hrest.
Qed.

(** In a frame that has just been pushed and is current again after a
    sequence of calls that never popped it, [findLocal] answers with what
    the frame's own calls stored. *)
Lemma findLocal_own (symbol : ValueSymbol) (ops : list Op) c c3 :
  SmallVector.back (stack c) = Some emptyFrame \/
  (exists sub callLoc lookupLoc,
     SmallVector.back (stack c) = Some (mkFrame ∅ (Some sub) callLoc lookupLoc)) ->
  run ops c = Some c3 ->
  staysAbove (length (stack c)) ops c = true ->
  length (stack c3) = length (stack c) ->
  findLocal symbol c3 = ownLocal (length (stack c)) symbol None ops c.
Proof.
  intros Hnew Hrun Hstay Hlen.
  assert (Hback : exists g, SmallVector.back (stack c) = Some g /\
                            temporaries g !! symbol = None).
  { destruct Hnew as [Hb | (sub & callLoc & lookupLoc & Hb)];
      eexists; (split; [exact Hb | apply lookup_empty]). }
  destruct Hback as (g & Hb & Hg).
  unfold SmallVector.back in Hb. rewrite last_lookup in Hb.
  assert (Hd : (1 <= length (stack c))%nat).
  { destruct (stack c); [discriminate | cbn; lia]. }
  destruct (ownLocal_sound (length (stack c)) symbol ops Hd None c c3) as (g3 & Hg3 & Hown);
    [eauto | exact Hrun | exact Hstay |].
  unfold findLocal, SmallVector.back. rewrite last_lookup, Hlen, Hg3. exact Hown.
Qed.

(** C7, as amended.  [findLocal] looks in the storage of the innermost
    frame only, or in the top-level scope when no frame is active, and
    answers a miss with the not-found signal, no diagnostic being involved.
    A local created by [createLocal] is found in the scope that created it
    and is not found in a frame pushed after that.  More generally, take
    any frame [G] at the moment it is pushed, on top of whatever frames and
    locals, and any sequence of calls after which [G] is current again
    without having been popped: [findLocal] then answers with what the
    calls made while [G] was current stored for the symbol, so it answers
    not-found unless [G] itself created a local for it; the locals of the
    frames below and of the frames that came and went above play no part. *)
Theorem findLocal_innermost_only (symbol : ValueSymbol) (value : ConstantValue Payload) c :
  let c1 := createLocal symbol value c in
  findLocal symbol c1 = Some value /\
  findLocal symbol (pushEmptyFrame c1) = None /\
  (forall sub callLoc lookupLoc c2,
     pushFrame sub callLoc lookupLoc c1 = (true, c2) -> findLocal symbol c2 = None) /\
  (forall (c' cG : EvalContext) (ops : list Op) (c3 : EvalContext),
     cG = pushEmptyFrame c' \/
     (exists sub callLoc lookupLoc, pushFrame sub callLoc lookupLoc c' = (true, cG)) ->
     run ops cG = Some c3 ->
     staysAbove (length (stack cG)) ops cG = true ->
     length (stack c3) = length (stack cG) ->
     findLocal symbol c3 = ownLocal (length (stack cG)) symbol None ops cG /\
     (createsOwn (length (stack cG)) symbol ops cG = false ->
      findLocal symbol c3 = None)) /\
  (forall (c' : EvalContext) (st : list Frame) f,
     stack c' = st ++ [f] -> findLocal symbol c' = temporaries f !! symbol) /\
  (forall c' : EvalContext,
     stack c' = [] -> findLocal symbol c' = topLevelScope c' !! symbol).
Proof.
  cbn zeta. split; [| split; [| split; [| split; [| split]]]].
  - unfold createLocal, findLocal.
    destruct (SmallVector.back (stack c)) as [f |] eqn:Hback.
    + cbn [stack with_stack]. rewrite back_push_back. cbn [temporaries].
      apply lookup_insert_eq.
    + cbn [stack with_stack topLevelScope with_topLevelScope]. rewrite Hback.
      apply lookup_insert_eq.
  - unfold findLocal, pushEmptyFrame. cbn [stack with_stack].
    rewrite back_push_back. apply lookup_empty.
  - intros sub callLoc lookupLoc c2. unfold pushFrame.
    destruct (_ <? _); intros [= <-].
    unfold findLocal. cbn [stack with_stack]. rewrite back_push_back. apply lookup_empty.
  - intros c' cG ops c3 Hpushed Hrun Hstay Hlen.
    assert (Hfresh :
      SmallVector.back (stack cG) = Some emptyFrame \/
      (exists sub callLoc lookupLoc,
         SmallVector.back (stack cG) = Some (mkFrame ∅ (Some sub) callLoc lookupLoc))).
    { destruct Hpushed as [-> | (sub & callLoc & lookupLoc & Hpush)].
      - left. unfold pushEmptyFrame. cbn [stack with_stack]. apply back_push_back.
      - right. exists sub, callLoc, lookupLoc.
        apply pushFrame_true_top in Hpush as [_ Htop]. exact Htop. }
    pose proof (findLocal_own symbol ops cG c3 Hfresh Hrun Hstay Hlen) as Hown.
    split; [exact Hown |].
    intros Hno. rewrite Hown. apply ownLocal_no_create, Hno.
  - intros c' st f. apply findLocal_top.
  - intros c' Hst. unfold findLocal. rewrite Hst. reflexivity.
Qed.

End Properties.

(** * The properties on the concrete instance *)

(** Five [step] calls, with a frame pushed and popped in between, on a
    context whose limit is five: the counter reads five, and a sixth call
    is refused. *)
Lemma step_counter_shared_witness :
  exists c' : EvalContext,
    run sampleOps sampleContext = Some c' /\
    steps c' = 5 /\
    (step 6%N c').1 = false /\
    diags (step 6%N c').2 =
      diags c' ++ [mkDiagnostic ConstEvalExceededMaxSteps (AtLocation 6%N)].
Proof.
  eexists. split; [vm_compute; reflexivity |].
  match goal with
  | |- steps ?c' = _ /\ _ =>
      destruct (step_counter_shared sampleOps sampleContext c'
                  eq_refl eq_refl eq_refl) as (Hsteps & Hnext & _)
  end.
  split; [exact Hsteps |].
  destruct (Hnext 6%N eq_refl) as [_ Hres].
  exact Hres.
Defined.

(** C1, as stated, fails on the 32-bit counter.  On a context whose limit
    is five, [2 ^ 32] calls of [step] leave the counter at zero, not at
    [2 ^ 32], and the call after them succeeds, although its number exceeds
    the limit and no [reset] came in between. *)
Lemma step_counter_overflow :
  steps (stepN (2 ^ 32) 1%N sampleContext) = 0 /\
  steps (stepN (2 ^ 32) 1%N sampleContext) <> Z.of_N (2 ^ 32) /\
  (step 1%N (stepN (2 ^ 32) 1%N sampleContext)).1 = true.
Proof.
  destruct (stepN_fields (2 ^ 32) 1%N sampleContext) as [Hc Hs];
    [vm_compute; split; congruence |].
  assert (Hz : (steps sampleContext + Z.of_N (2 ^ 32)) mod 2 ^ 32 = 0)
    by (vm_compute; reflexivity).
  rewrite Hz in Hs. clear Hz.
  pose proof (step_result 1%N (stepN (2 ^ 32) 1%N sampleContext)) as Hres.
  cbv zeta in Hres. rewrite Hc, Hs in Hres.
  revert Hs Hres. generalize (stepN (2 ^ 32) 1%N sampleContext). intros cw Hs Hres.
  split; [exact Hs |]. split; [rewrite Hs; discriminate |].
  change (maxConstexprSteps (compilation sampleContext) <? uint32_incr 0) with false in Hres.
  exact (proj1 Hres).
Qed.

(** Scenario B: three frames at a maximum depth of three; the fourth push
    is refused, the log holds one diagnostic and the top frame is the third
    one pushed. *)
Lemma pushFrame_at_max_depth_witness :
  let r := pushFrame 7%positive 13%N 4%N sampleDepth3 in
  Z.of_nat (length (stack sampleDepth3)) = maxConstexprDepth (compilation sampleDepth3) /\
  r.1 = false /\
  diags r.2 = [mkDiagnostic ConstEvalExceededMaxCallDepth (AtLocation 13%N)] /\
  length (stack r.2) = 3%nat /\
  topFrame r.2 = Some (mkFrame ∅ (Some 7%positive) 12%N 3%N).
Proof.
  cbn zeta.
  assert (Hdepth : Z.of_nat (length (stack sampleDepth3))
                   = maxConstexprDepth (compilation sampleDepth3))
    by (vm_compute; reflexivity).
  destruct (pushFrame_at_max_depth 7%positive 13%N 4%N sampleDepth3 Hdepth)
    as (Hfail & Hdiags & Hstack & _ & _ & Htop).
  split; [exact Hdepth |]. split; [exact Hfail |].
  split; [rewrite Hdiags; reflexivity |].
  split; [rewrite Hstack; reflexivity |].
  exact (Htop 7%positive 12%N 3%N sampleDepth2 eq_refl).
Defined.

(** Scenario D: no frame active and caching enabled; inside the scope, in
    which a local is created in the frame the scope pushed,
    [cacheResults()] is false; after the scope it is true again and the
    stack is empty. *)
Lemma disableCaching_scope_witness :
  let g := (disableCaching sampleContext).1 in
  let c1 := (disableCaching sampleContext).2 in
  let cend := createLocal 5%positive (CVValue 1) c1 in
  length (stack cend) = length (stack c1) /\
  cacheResults c1 = false /\
  cacheResults cend = false /\
  exists c',
    guardExit g cend = Some c' /\
    bitmask.has (flags c') EvalFlags.CacheResults = true /\
    inFunction c' = false /\
    length (stack c') = 0%nat /\
    (stack sampleContext = [] -> stack c' = []).
Proof.
  cbn zeta.
  destruct (disableCaching_scope sampleContext
              (createLocal 5%positive (CVValue 1) (disableCaching sampleContext).2)
              (createLocal 5%positive (CVValue 1) (disableCaching sampleContext).2)
              eq_refl) as (Hentry & Hinside & _ & Hexit).
  split; [reflexivity |]. split; [exact Hentry |].
  split; [apply Hinside; vm_compute; constructor |].
  exact Hexit.
Defined.

(** C4, as stated, fails when the scope is left out of balance.  With no
    frame active at entry, a body that pushes a frame and leaves early
    without popping it makes the guard pop that frame instead of the one
    the scope pushed: afterwards [inFunction()] is true, though it was
    false before, and a frame remains on the stack.  With two frames
    active at entry, a body that unwinds both leaves [inFunction()] false
    after the scope, though it was true before. *)
Lemma disableCaching_unbalanced_exit :
  let g0 := (disableCaching sampleContext).1 in
  let early := (pushFrame 7%positive 10%N 1%N (disableCaching sampleContext).2).2 in
  let g2 := (disableCaching sampleDepth2).1 in
  (inFunction sampleContext = false /\ stack sampleContext = [] /\
   exists c',
     guardExit g0 early = Some c' /\ inFunction c' = true /\
     stack c' = [emptyFrame]) /\
  (inFunction sampleDepth2 = true /\
   exists unwound c',
     popFrame (disableCaching sampleDepth2).2 ≫= popFrame = Some unwound /\
     guardExit g2 unwound = Some c' /\ inFunction c' = false).
Proof.
  cbn zeta. split.
  - split; [reflexivity |]. split; [reflexivity |].
    eexists. split; [vm_compute; reflexivity |]. split; reflexivity.
  - split; [reflexivity |].
    eexists. eexists. split; [vm_compute; reflexivity |].
    split; [vm_compute; reflexivity | reflexivity].
Qed.

(** An unbounded literal without a queue target: an error on the sample
    context, the placeholder once [AllowUnboundedPlaceholder] is set. *)
Lemma evalUnboundedLiteral_no_target_witness :
  let c := sampleContext in
  let ca := newEvalContext sampleCompilation
              EvalFlags.AllowUnboundedPlaceholder in
  getQueueTarget c = None /\
  (evalUnboundedLiteral (3%N, 4%N) c).1 = CVInvalid /\
  diags (evalUnboundedLiteral (3%N, 4%N) c).2
    = [mkDiagnostic UnboundedNotAllowed (AtRange (3%N, 4%N))] /\
  getQueueTarget ca = None /\
  evalUnboundedLiteral (3%N, 4%N) ca = (CVUnboundedPlaceholder, ca).
Proof.
  cbn zeta.
  destruct (evalUnboundedLiteral_no_target (3%N, 4%N) sampleContext eq_refl)
    as [Herr _].
  destruct (evalUnboundedLiteral_no_target (3%N, 4%N)
              (newEvalContext sampleCompilation
                 EvalFlags.AllowUnboundedPlaceholder) eq_refl)
    as [_ Hok].
  destruct (Herr eq_refl) as [Hv Hd]. destruct (Hok eq_refl) as [Hv' Hc'].
  split; [reflexivity |]. split; [exact Hv |]. split; [exact Hd |].
  split; [reflexivity |].
  apply injective_projections; [exact Hv' | exact Hc'].
Defined.

(** ** The scenarios of the specification, run on the model *)

(** Scenario A: a step limit of five and a loop body that calls [step] once
    per iteration; the sixth call fails and its diagnostic is in the log. *)
Example scenario_A :
  (step 1%N (stepN 4 1%N sampleContext)).1 = true /\
  (step 1%N (stepN 5 1%N sampleContext)).1 = false /\
  getDiagnostics (stepN 6 1%N sampleContext)
    = [mkDiagnostic ConstEvalExceededMaxSteps (AtLocation 1%N)].
Proof. vm_compute. repeat split. Qed.

(** Scenario C: set a disable target, read it back, clear it. *)
Example scenario_C :
  let c1 := setDisableTarget (Some 9%positive) (20%N, 30%N) sampleContext in
  let c2 := setDisableTarget None inhabitant c1 in
  (getDisableTarget c1, getDisableRange c1) = (Some 9%positive, (20%N, 30%N)) /\
  (getDisableTarget c2, getDisableRange c2) = (None, (0%N, 0%N)).
Proof. vm_compute. repeat split. Qed.

(** C7, as stated, fails under recursion.  Frame [F] creates a local for
    symbol [5]; the function calls itself, and the nested frame [G] creates
    its local for the same symbol.  With [G] current, a different and more
    deeply nested frame than [F], [findLocal] does not answer not-found: it
    returns the storage of [G]. *)
Lemma findLocal_in_recursive_call :
  let cF := createLocal 5%positive (CVValue 1)
              (pushFrame 7%positive 10%N 1%N sampleContext).2 in
  let cG := createLocal 5%positive (CVValue 2)
              (pushFrame 7%positive 11%N 2%N cF).2 in
  findLocal 5%positive cF = Some (CVValue 1) /\
  length (stack cG) = 2%nat /\
  findLocal 5%positive cG = Some (CVValue 2) /\
  findLocal 5%positive cG <> None.
Proof. vm_compute. repeat split. discriminate. Qed.

(** A local of the caller is not found in the frame of the callee: not
    when the callee's frame is pushed, and not after the callee has created
    a local of its own for another symbol and a frame above it has created
    and dropped one for the same symbol. *)
Lemma findLocal_innermost_only_witness :
  findLocal 5%positive sampleCaller = Some (CVValue 1) /\
  findLocal 5%positive (pushEmptyFrame sampleCaller) = None /\
  findLocal 5%positive sampleCallee = None /\
  exists c3,
    run sampleCalleeOps sampleCallee = Some c3 /\
    staysAbove (length (stack sampleCallee)) sampleCalleeOps sampleCallee = true /\
    length (stack c3) = length (stack sampleCallee) /\
    createsOwn (length (stack sampleCallee)) 5%positive sampleCalleeOps sampleCallee
      = false /\
    findLocal 6%positive c3 = Some (CVValue 3) /\
    findLocal 5%positive c3 = None.
Proof.
  destruct (findLocal_innermost_only 5%positive (CVValue 1)
              (pushFrame 7%positive 10%N 1%N sampleContext).2)
    as (Hown & Hempty & Hframe & Hcalls & _).
  split; [exact Hown |]. split; [exact Hempty |].
  split; [exact (Hframe 7%positive 11%N 2%N sampleCallee eq_refl) |].
  eexists. split; [vm_compute; reflexivity |].
  split; [reflexivity |]. split; [reflexivity |]. split; [reflexivity |].
  split; [reflexivity |].
  refine (proj2 (Hcalls sampleCaller sampleCallee sampleCalleeOps _ _ eq_refl eq_refl eq_refl)
            eq_refl).
  right. exists 7%positive, 11%N, 2%N. reflexivity.
Defined.

(** Calls nested deeper than the limit allows, on an empty stack: the run
    ends and the stack is empty again. *)
Lemma inFunction_balanced_witness :
  stack sampleContext = [] /\
  inFunction sampleContext = false /\
  exists c',
    runCalls sampleCalls sampleContext = Some c' /\
    inFunction c' = false /\ stack c' = [].
Proof.
  split; [reflexivity |].
  exact (proj2 (inFunction_balanced sampleCalls sampleContext) eq_refl).
Defined.

(** The refused call of [sampleCalls] is the one diagnostic of its run. *)
Example sampleCalls_run :
  getDiagnostics <$> runCalls sampleCalls sampleContext
  = Some [mkDiagnostic ConstEvalExceededMaxCallDepth (AtLocation 12%N)].
Proof. vm_compute. reflexivity. Qed.

(** * Further properties of the header's code *)

Section FlagsAndScopes.
Context `{Externals}.

Implicit Types (c : EvalContext) (g : DisableCachingGuard).

(** ** The flag set *)

Lemma has_set_same (fl a : bitmask.t) :
  a <> 0 -> bitmask.has (bitmask.or fl a) a = true.
Proof.
  intros Ha. unfold bitmask.has, bitmask.or.
  rewrite Z.land_lor_distr_l, Z.land_diag.
  apply negb_true_iff, Z.eqb_neq. intros Hz.
  apply Z.lor_eq_0_iff in Hz as [_ Hz]. contradiction.
Qed.

Lemma has_clear_same (fl a : bitmask.t) :
  Z.land (bitmask.complement a) a = 0 ->
  bitmask.has (bitmask.and fl (bitmask.complement a)) a = false.
Proof.
  intros Ha. unfold bitmask.has, bitmask.and.
  rewrite <- Z.land_assoc, Ha, Z.land_0_r. reflexivity.
Qed.

Lemma has_set_other (fl a b : bitmask.t) :
  Z.land a b = 0 -> bitmask.has (bitmask.or fl a) b = bitmask.has fl b.
Proof.
  intros Hab. unfold bitmask.has, bitmask.or.
  rewrite Z.land_lor_distr_l, Hab, Z.lor_0_r. reflexivity.
Qed.

Lemma has_clear_other (fl a b : bitmask.t) :
  Z.land (bitmask.complement a) b = b ->
  bitmask.has (bitmask.and fl (bitmask.complement a)) b = bitmask.has fl b.
Proof.
  intros Hab. unfold bitmask.has, bitmask.and.
  rewrite <- Z.land_assoc, Hab. reflexivity.
Qed.

(** The flags are independent bits of the [uint8_t]: each enumerator is a
    non-zero value up to [AllowUnboundedPlaceholder], the one named to
    [BITMASK] as the largest; a flag is set after it is or-ed in and clear
    after it is masked out; and setting or clearing one flag never changes
    whether another one is set. *)
Theorem EvalFlags_independent (a b fl : bitmask.t) :
  In a EvalFlags_enumerators ->
  In b EvalFlags_enumerators ->
  0 < a <= EvalFlags.AllowUnboundedPlaceholder /\
  EvalFlags.AllowUnboundedPlaceholder < 2 ^ 8 /\
  bitmask.has EvalFlags.None a = false /\
  bitmask.has (bitmask.or fl a) a = true /\
  bitmask.has (bitmask.and fl (bitmask.complement a)) a = false /\
  (a <> b ->
   bitmask.has (bitmask.or fl a) b = bitmask.has fl b /\
   bitmask.has (bitmask.and fl (bitmask.complement a)) b = bitmask.has fl b).
Proof.
  unfold EvalFlags_enumerators. cbn [In].
  intros Ha Hb.
  repeat match goal with
         | Hx : _ \/ _ |- _ => destruct Hx as [Hx | Hx]
         | Hx : False |- _ => destruct Hx
         end;
    subst a b;
    (split; [vm_compute; split; congruence |]);
    (split; [reflexivity |]);
    (split; [reflexivity |]);
    (split; [apply has_set_same; discriminate |]);
    (split; [apply has_clear_same; reflexivity |]);
    intros Hne;
    first [ exfalso; apply Hne; reflexivity
          | split; [apply has_set_other | apply has_clear_other]; reflexivity ].
Qed.

(** Clearing [CacheResults] and then restoring it by its saved value gives
    back the same [uint8_t]. *)
Lemma flags_restore_checked :
  forallb
    (fun n : nat =>
       let fl := Z.of_nat n in
       let cleared := bitmask.and fl (bitmask.complement EvalFlags.CacheResults) in
       Z.eqb
         (if bitmask.has fl EvalFlags.CacheResults
          then bitmask.or cleared EvalFlags.CacheResults
          else bitmask.and cleared (bitmask.complement EvalFlags.CacheResults))
         fl)
    (seq 0 256) = true.
Proof. vm_compute. reflexivity. Qed.

Lemma flags_restore (fl : bitmask.t) :
  0 <= fl < 2 ^ 8 ->
  (if bitmask.has fl EvalFlags.CacheResults
   then bitmask.or (bitmask.and fl (bitmask.complement EvalFlags.CacheResults))
          EvalFlags.CacheResults
   else bitmask.and (bitmask.and fl (bitmask.complement EvalFlags.CacheResults))
          (bitmask.complement EvalFlags.CacheResults)) = fl.
Proof.
  intros Hfl.
  pose proof flags_restore_checked as Hall.
  rewrite forallb_forall in Hall.
  specialize (Hall (Z.to_nat fl)).
  rewrite Z2Nat.id in Hall by lia. cbv zeta in Hall.
  apply Z.eqb_eq, Hall, in_seq. lia.
Qed.

(** ** What [disableCaching] and its guard do to each member *)

Lemma disableCaching_members c :
  let g := (disableCaching c).1 in
  let c1 := (disableCaching c).2 in
  saved g = bitmask.has (flags c) EvalFlags.CacheResults /\
  pushed g = negb (inFunction c) /\
  flags c1 = bitmask.and (flags c) (bitmask.complement EvalFlags.CacheResults) /\
  stack c1 = (if inFunction c then stack c
              else SmallVector.push_back emptyFrame (stack c)) /\
  (compilation c1 = compilation c /\ steps c1 = steps c /\
   disableTarget c1 = disableTarget c /\ disableRange c1 = disableRange c /\
   queueTarget c1 = queueTarget c /\ lvalStack c1 = lvalStack c /\
   diags c1 = diags c /\ topLevelScope c1 = topLevelScope c).
Proof.
  cbn zeta. unfold disableCaching. cbn [fst snd saved pushed].
  change (inFunction (with_flags _ c)) with (inFunction c).
  destruct (inFunction c); cbn [negb]; repeat split.
Qed.

Lemma guardExit_members g c c' :
  guardExit g c = Some c' ->
  flags c' = (if saved g then bitmask.or (flags c) EvalFlags.CacheResults
              else bitmask.and (flags c) (bitmask.complement EvalFlags.CacheResults)) /\
  stack c' = (if pushed g then SmallVector.pop_back (stack c) else stack c) /\
  (compilation c' = compilation c /\ steps c' = steps c /\
   disableTarget c' = disableTarget c /\ disableRange c' = disableRange c /\
   queueTarget c' = queueTarget c /\ lvalStack c' = lvalStack c /\
   diags c' = diags c /\ topLevelScope c' = topLevelScope c).
Proof.
  unfold guardExit, popFrame.
  destruct (pushed g); [destruct (SmallVector.empty (stack c)) |];
    cbn [mbind option_bind]; intros Hex; simplify_eq;
    destruct (saved g); repeat split.
Qed.

Lemma guardExit_runs g c :
  pushed g = false \/ stack c <> [] -> is_Some (guardExit g c).
Proof.
  unfold guardExit, popFrame. intros [-> | Hne].
  - cbn [mbind option_bind]. eauto.
  - destruct (pushed g); [| cbn [mbind option_bind]; eauto].
    destruct (stack c); [congruence |]. cbn [SmallVector.empty mbind option_bind]. eauto.
Qed.

Lemma guardExit_balanced_runs c cend :
  length (stack cend) = length (stack (disableCaching c).2) ->
  is_Some (guardExit (disableCaching c).1 cend).
Proof.
  intros Hlen. apply guardExit_runs.
  destruct (disableCaching_members c) as (_ & Hpushed & _ & Hstack & _).
  cbn zeta in Hpushed, Hstack. rewrite Hpushed.
  destruct (inFunction c); [left; reflexivity | right].
  rewrite Hstack, length_push_back in Hlen.
  destruct (stack cend); [discriminate | congruence].
Qed.

(** A [disableCaching] scope touches nothing but the [CacheResults] bit and
    the frame it pushes for itself.  Let the scope be left at a call depth
    equal to the one at entry.  Every other flag reads inside the scope as
    before it, and after the guard has run as it did when the scope was
    left; the step counter, the diagnostics, the l-value stack and the two
    signal slots are, after the guard, what the body left; and if the body
    did not assign to [flags], the whole flag set is restored. *)
Theorem disableCaching_other_members (F : bitmask.t) c cend :
  let g := (disableCaching c).1 in
  let c1 := (disableCaching c).2 in
  In F EvalFlags_enumerators ->
  F <> EvalFlags.CacheResults ->
  length (stack cend) = length (stack c1) ->
  bitmask.has (flags c1) F = bitmask.has (flags c) F /\
  exists c',
    guardExit g cend = Some c' /\
    bitmask.has (flags c') F = bitmask.has (flags cend) F /\
    (steps c' = steps cend /\ diags c' = diags cend /\
     lvalStack c' = lvalStack cend /\ queueTarget c' = queueTarget cend /\
     disableTarget c' = disableTarget cend /\ disableRange c' = disableRange cend) /\
    (flags cend = flags c1 -> 0 <= flags c < 2 ^ 8 -> flags c' = flags c).
Proof.
  cbn zeta. intros HF Hne Hlen.
  destruct (disableCaching_members c) as (Hsaved & _ & Hflags & _).
  cbn zeta in Hsaved, Hflags.
  assert (Hset : forall fl, bitmask.has (bitmask.or fl EvalFlags.CacheResults) F
                            = bitmask.has fl F).
  { intros fl. apply has_set_other.
    unfold EvalFlags_enumerators in HF. cbn [In] in HF.
    destruct HF as [<- | [<- | [<- | [<- | [<- | []]]]]];
      first [reflexivity | contradiction Hne; reflexivity]. }
  assert (Hclear : forall fl,
            bitmask.has (bitmask.and fl (bitmask.complement EvalFlags.CacheResults)) F
            = bitmask.has fl F).
  { intros fl. apply has_clear_other.
    unfold EvalFlags_enumerators in HF. cbn [In] in HF.
    destruct HF as [<- | [<- | [<- | [<- | [<- | []]]]]];
      first [reflexivity | contradiction Hne; reflexivity]. }
  split; [rewrite Hflags; apply Hclear |].
  destruct (guardExit_balanced_runs c cend Hlen) as [c' Hexit].
  exists c'. split; [exact Hexit |].
  destruct (guardExit_members _ _ _ Hexit)
    as (Hfl' & _ & _ & Hst & Hdt & Hdr & Hqt & Hlv & Hdg & _).
  split; [| split; [repeat split; assumption |]].
  - rewrite Hfl'. destruct (saved _); [apply Hset | apply Hclear].
  - intros Hbody Hrange. rewrite Hfl', Hbody, Hflags, Hsaved.
    apply flags_restore, Hrange.
Qed.

(** Inside a function [disableCaching] leaves the call stack alone: nothing
    is pushed on entry, and on exit the guard pops nothing, so it runs to
    completion from any state the body leaves, balanced or not, keeps the
    stack of that state and puts the [CacheResults] flag back. *)
Theorem disableCaching_in_function c cend :
  inFunction c = true ->
  let g := (disableCaching c).1 in
  let c1 := (disableCaching c).2 in
  pushed g = false /\
  stack c1 = stack c /\
  exists c',
    guardExit g cend = Some c' /\
    stack c' = stack cend /\
    bitmask.has (flags c') EvalFlags.CacheResults
      = bitmask.has (flags c) EvalFlags.CacheResults.
Proof.
  intros Hin. cbn zeta.
  destruct (disableCaching_members c) as (Hsaved & Hpushed & _ & Hstack & _).
  cbn zeta in Hsaved, Hpushed, Hstack. rewrite Hin in Hpushed, Hstack.
  cbn [negb] in Hpushed.
  split; [exact Hpushed |]. split; [exact Hstack |].
  destruct (guardExit_runs (disableCaching c).1 cend (or_introl Hpushed)) as [c' Hexit].
  exists c'. split; [exact Hexit |].
  destruct (guardExit_members _ _ _ Hexit) as (Hfl' & Hst' & _).
  rewrite Hpushed in Hst'. split; [exact Hst' |].
  rewrite Hfl', Hsaved.
  destruct (bitmask.has (flags c) EvalFlags.CacheResults);
    [apply has_after_set | apply has_after_clear].
Qed.

(** Scopes nest.  A [disableCaching] inside a [disableCaching] scope changes
    nothing on entry: its guard saved a cleared flag and pushed no frame.
    So the exit of the inner scope, from whatever state, pops nothing and
    leaves caching disabled for the rest of the outer scope; left at once,
    the inner scope gives back the context it was entered with. *)
Theorem disableCaching_nested c cend :
  let c1 := (disableCaching c).2 in
  let g2 := (disableCaching c1).1 in
  let c2 := (disableCaching c1).2 in
  saved g2 = false /\ pushed g2 = false /\ c2 = c1 /\
  guardExit g2 c2 = Some c1 /\
  exists c',
    guardExit g2 cend = Some c' /\
    stack c' = stack cend /\
    bitmask.has (flags c') EvalFlags.CacheResults = false /\
    cacheResults c' = false.
Proof.
  cbn zeta.
  destruct (disableCaching_members c) as (_ & _ & Hflags1 & Hstack1 & _).
  cbn zeta in Hflags1, Hstack1.
  assert (Hin1 : inFunction (disableCaching c).2 = true).
  { unfold inFunction at 1. rewrite Hstack1.
    destruct (inFunction c) eqn:Hin; [exact Hin |].
    rewrite empty_push_back. reflexivity. }
  assert (Hhas1 : bitmask.has (flags (disableCaching c).2) EvalFlags.CacheResults = false).
  { rewrite Hflags1. apply has_after_clear. }
  set (c1 := (disableCaching c).2) in *.
  destruct (disableCaching_members c1) as (Hsaved & Hpushed & Hflags2 & Hstack2 & Hrest).
  cbn zeta in Hsaved, Hpushed, Hflags2, Hstack2, Hrest.
  rewrite Hhas1 in Hsaved. rewrite Hin1 in Hpushed, Hstack2. cbn [negb] in Hpushed.
  assert (Hidem : bitmask.and (flags c1) (bitmask.complement EvalFlags.CacheResults)
                  = flags c1).
  { subst c1. rewrite Hflags1. unfold bitmask.and.
    rewrite <- Z.land_assoc, Z.land_diag. reflexivity. }
  assert (Hc2 : (disableCaching c1).2 = c1).
  { destruct Hrest as (? & ? & ? & ? & ? & ? & ? & ?).
    rewrite Hidem in Hflags2.
    destruct (disableCaching c1).2, c1; cbn in *; congruence. }
  split; [exact Hsaved |]. split; [exact Hpushed |]. split; [exact Hc2 |].
  split.
  - rewrite Hc2. unfold guardExit. rewrite Hsaved, Hpushed.
    cbn [mbind option_bind]. rewrite Hidem. f_equal.
    destruct c1; reflexivity.
  - destruct (guardExit_runs (disableCaching c1).1 cend (or_introl Hpushed)) as [c' Hexit].
    exists c'. split; [exact Hexit |].
    destruct (guardExit_members _ _ _ Hexit) as (Hfl' & Hst' & _).
    rewrite Hsaved in Hfl'. rewrite Hpushed in Hst'.
    assert (Hoff : bitmask.has (flags c') EvalFlags.CacheResults = false)
      by (rewrite Hfl'; apply has_after_clear).
    split; [exact Hst' |]. split; [exact Hoff |].
    unfold cacheResults. rewrite Hoff. apply andb_false_r.
Qed.

(** ** The top frame *)

(** [topFrame()] reads the back of the frame stack, so it has a frame to
    return exactly when [inFunction()] is true; whenever [cacheResults()]
    is true there is none. *)
Theorem topFrame_defined_iff c :
  (is_Some (topFrame c) <-> inFunction c = true) /\
  (topFrame c = None <-> inFunction c = false) /\
  (cacheResults c = true -> topFrame c = None).
Proof.
  assert (Hnone : topFrame c = None <-> inFunction c = false).
  { unfold topFrame, SmallVector.back. rewrite last_None. apply iff_sym, inFunction_false_iff. }
  split; [| split; [exact Hnone |]].
  - rewrite <- not_eq_None_Some, Hnone. destruct (inFunction c); split; congruence.
  - unfold cacheResults. intros Hcache. apply andb_true_iff in Hcache as [Hnot _].
    apply Hnone, negb_true_iff, Hnot.
Qed.

(** ** The two signal slots *)

(** The queue target is a slot of its own: [getQueueTarget] returns what
    [setQueueTarget] stored, a later store replaces an earlier one, storing
    back the target read before a store restores the context exactly, and
    no store changes what the other inline readers return. *)
Theorem setQueueTarget_slot (q q' : option (ConstantValue Payload)) c :
  getQueueTarget (setQueueTarget q c) = q /\
  setQueueTarget q' (setQueueTarget q c) = setQueueTarget q' c /\
  setQueueTarget (getQueueTarget c) (setQueueTarget q c) = c /\
  (inFunction (setQueueTarget q c) = inFunction c /\
   cacheResults (setQueueTarget q c) = cacheResults c /\
   topFrame (setQueueTarget q c) = topFrame c /\
   getDisableTarget (setQueueTarget q c) = getDisableTarget c /\
   getDisableRange (setQueueTarget q c) = getDisableRange c /\
   getDiagnostics (setQueueTarget q c) = getDiagnostics c).
Proof. destruct c. repeat split. Qed.

(** The disable signal and the queue target do not interfere: a later
    [setDisableTarget] replaces an earlier one, storing back the target and
    range read before restores the context exactly, [setDisableTarget] and
    [setQueueTarget] commute, and neither caching nor the queue target
    depends on the disable signal. *)
Theorem setDisableTarget_independent (t t' : option Symbol) (r r' : SourceRange)
    (q : option (ConstantValue Payload)) c :
  setDisableTarget t' r' (setDisableTarget t r c) = setDisableTarget t' r' c /\
  setDisableTarget (getDisableTarget c) (getDisableRange c) (setDisableTarget t r c) = c /\
  setQueueTarget q (setDisableTarget t r c) = setDisableTarget t r (setQueueTarget q c) /\
  getQueueTarget (setDisableTarget t r c) = getQueueTarget c /\
  inFunction (setDisableTarget t r c) = inFunction c /\
  cacheResults (setDisableTarget t r c) = cacheResults c /\
  topFrame (setDisableTarget t r c) = topFrame c.
Proof. destruct c. repeat split. Qed.

End FlagsAndScopes.

(** ** The further properties on the concrete instance *)

(** Setting or clearing [CacheResults] in the flag set [IsScript |
    AllowUnboundedPlaceholder]. *)
Lemma EvalFlags_independent_witness :
  let a := EvalFlags.CacheResults in
  let b := EvalFlags.AllowUnboundedPlaceholder in
  let fl := bitmask.or EvalFlags.IsScript EvalFlags.AllowUnboundedPlaceholder in
  In a EvalFlags_enumerators /\ In b EvalFlags_enumerators /\
  bitmask.has (bitmask.or fl a) a = true /\
  bitmask.has (bitmask.and fl (bitmask.complement a)) a = false /\
  bitmask.has (bitmask.or fl a) b = bitmask.has fl b /\
  bitmask.has (bitmask.and fl (bitmask.complement a)) b = bitmask.has fl b.
Proof.
  cbn zeta.
  assert (Ha : In EvalFlags.CacheResults EvalFlags_enumerators) by (simpl; auto).
  assert (Hb : In EvalFlags.AllowUnboundedPlaceholder EvalFlags_enumerators)
    by (simpl; auto 6).
  destruct (EvalFlags_independent EvalFlags.CacheResults
              EvalFlags.AllowUnboundedPlaceholder
              (bitmask.or EvalFlags.IsScript EvalFlags.AllowUnboundedPlaceholder)
              Ha Hb) as (_ & _ & _ & Hset & Hclear & Hother).
  destruct Hother as [Hos Hoc]; [discriminate |].
  repeat split; assumption.
Defined.

(** A scope on the script context, in which a local is created: the
    placeholder flag is untouched throughout and the flag set comes back
    whole. *)
Lemma disableCaching_other_members_witness :
  let F := EvalFlags.AllowUnboundedPlaceholder in
  let c := sampleScriptContext in
  let g := (disableCaching c).1 in
  let c1 := (disableCaching c).2 in
  let cend := createLocal 5%positive (CVValue 1) c1 in
  In F EvalFlags_enumerators /\ F <> EvalFlags.CacheResults /\
  length (stack cend) = length (stack c1) /\
  bitmask.has (flags c1) F = true /\
  exists c',
    guardExit g cend = Some c' /\
    bitmask.has (flags c') F = true /\
    flags c' = flags c.
Proof.
  cbn zeta.
  assert (HF : In EvalFlags.AllowUnboundedPlaceholder EvalFlags_enumerators)
    by (simpl; auto 6).
  assert (Hne : EvalFlags.AllowUnboundedPlaceholder <> EvalFlags.CacheResults)
    by discriminate.
  destruct (disableCaching_other_members EvalFlags.AllowUnboundedPlaceholder
              sampleScriptContext
              (createLocal 5%positive (CVValue 1) (disableCaching sampleScriptContext).2)
              HF Hne eq_refl) as (Hin & c' & Hexit & Hout & _ & Hwhole).
  split; [exact HF |]. split; [exact Hne |]. split; [reflexivity |].
  split; [rewrite Hin; reflexivity |].
  exists c'. split; [exact Hexit |]. split; [rewrite Hout; reflexivity |].
  apply Hwhole; [reflexivity | vm_compute; split; congruence].
Defined.

(** A scope entered two calls deep and left, out of balance, with no frame
    on the stack: the guard still runs, and pops nothing. *)
Lemma disableCaching_in_function_witness :
  let g := (disableCaching sampleDepth2).1 in
  inFunction sampleDepth2 = true /\
  stack sampleContext = [] /\
  pushed g = false /\
  stack (disableCaching sampleDepth2).2 = stack sampleDepth2 /\
  exists c',
    guardExit g sampleContext = Some c' /\ stack c' = [] /\
    bitmask.has (flags c') EvalFlags.CacheResults = true.
Proof.
  cbn zeta. split; [reflexivity |]. split; [reflexivity |].
  exact (disableCaching_in_function sampleDepth2 sampleContext eq_refl).
Defined.
